(** * AES-408 scripts: Green-Ampt infiltration and ZIP-code centroids

    A shallow embedding of the two scripts of the repository,

      - [Scripts/infiltration.py]  ([compute_infiltration]), and
      - [Scripts/Class Exercise 6 Outputs/zip_code_centroids.py]  ([main]),

    together with the properties stated about them.

    Python floats and NumPy [float64] values are IEEE 754 binary64
    numbers; they are modelled by the Standard Library's [spec_float]
    at precision 53 and maximal exponent 1024, whose operations round
    to nearest, ties to even, as the hardware does.  Exceptions are
    modelled by a [result] type and threaded with monadic bind.  A
    pandas DataFrame is a list of column names plus a list of rows,
    every row a finite map from column name to cell. *)

From Stdlib Require Import ZArith QArith Qabs Lia SpecFloat Ascii String.
From stdpp Require Import gmap strings list.

(* ===================================================================== *)
(** * Exceptions *)
(* ===================================================================== *)

(** The Python exceptions the two scripts can run into. *)
Inductive exn :=
  | ZeroDivisionError
  | ValueError
  | TypeError
  | KeyError (column : string).

Inductive result (A : Type) :=
  | Ok (a : A)
  | Raise (e : exn).
Arguments Ok {A} a.
Arguments Raise {A} e.

Global Instance result_ret : MRet result := @Ok.
Global Instance result_bind : MBind result := λ A B f r,
  match r with
  | Ok a => f a
  | Raise e => Raise e
  end.
Global Instance result_fmap : FMap result := λ A B f r,
  match r with
  | Ok a => Ok (f a)
  | Raise e => Raise e
  end.

(* ===================================================================== *)
(** * Binary64 arithmetic *)
(* ===================================================================== *)

Module F64.

Definition prec : Z := 53.
Definition emax : Z := 1024.

Abbreviation float64 := spec_float.

Definition add : float64 → float64 → float64 := SFadd prec emax.
Definition sub : float64 → float64 → float64 := SFsub prec emax.
Definition mul : float64 → float64 → float64 := SFmul prec emax.
Definition div : float64 → float64 → float64 := SFdiv prec emax.

Definition leb : float64 → float64 → bool := SFleb.
Definition ltb : float64 → float64 → bool := SFltb.
Definition eqb : float64 → float64 → bool := SFeqb.

Definition nan : float64 := S754_nan.
Definition zero : float64 := S754_zero false.

Definition is_nan (x : float64) : bool :=
  match x with S754_nan => true | _ => false end.

Definition is_zero (x : float64) : bool :=
  match x with S754_zero _ => true | _ => false end.

(** Conversion of an integer, as [float(n)] does. *)
Definition of_Z (n : Z) : float64 := binary_normalize prec emax n 0 false.

Definition one : float64 := Eval vm_compute in of_Z 1.

(** The binary64 value of the decimal literal [n · 10^-k], correctly
    rounded, as the Python reader produces it (a negative literal is
    the negation of the positive one, which rounds symmetrically). *)
Definition of_decimal (n : Z) (k : nat) : float64 :=
  let q (s : bool) (p : positive) :=
    let '(m, e, l) :=
      SFdiv_core_binary prec emax (Zpos p) 0 (10 ^ Z.of_nat k) 0 in
    binary_round_aux prec emax s m e l in
  match n with
  | Z0 => S754_zero false
  | Zpos p => q false p
  | Zneg p => q true p
  end.

(** The exact rational value of a finite float (0 for the others). *)
Definition to_Q (x : float64) : Q :=
  match x with
  | S754_finite s m e =>
      let v := (if s then Zneg m else Zpos m) in
      match e with
      | Z0 => inject_Z v
      | Zpos p => inject_Z (v * 2 ^ Zpos p)
      | Zneg p => Qmake v (2 ^ p)
      end
  | _ => 0%Q
  end.

(** Python's [x / y] on two floats: a zero divisor raises, anything
    else (overflow, NaN) is the IEEE result. *)
Definition py_div (x y : float64) : result float64 :=
  if is_zero y then Raise ZeroDivisionError else Ok (div x y).

End F64.

Import F64.

(* ===================================================================== *)
(** * infiltration.py *)
(* ===================================================================== *)

Module Infiltration.

(** [np.linspace(start, stop, num)] with the default [endpoint=True],
    following NumPy's implementation: [arange(0, num)] scaled by
    [step = (stop - start) / (num - 1)], shifted by [start], and the
    last sample overwritten with [stop].  A zero step (a denormal
    range) divides before it multiplies; with at most one sample the
    step is undefined and the range itself is the factor. *)
Definition linspace (start stop : float64) (num : Z) : result (list float64) :=
  if (num <? 0)%Z then Raise ValueError
  else
    let dv := (num - 1)%Z in
    let delta := sub stop start in
    let y := of_Z <$> seqZ 0 num in
    let y :=
      if (0 <? dv)%Z then
        let step := div delta (of_Z dv) in
        if eqb step zero
        then (λ yi, mul (div yi (of_Z dv)) delta) <$> y
        else (λ yi, mul yi step) <$> y
      else (λ yi, mul yi delta) <$> y in
    let y := (λ yi, add yi start) <$> y in
    Ok (if (1 <? num)%Z then <[Z.to_nat dv := stop]> y else y).

(** The two closed-form expressions of the script, in binary64 and in
    the order the script evaluates them. *)
Definition ponding_volume (Ks delta_theta psi rain_intensity : float64)
    : float64 :=
  div (mul delta_theta psi) (sub one (div rain_intensity Ks)).

Definition green_ampt_rate (Ks delta_theta psi Fi : float64) : float64 :=
  mul Ks (sub one (div (mul delta_theta psi) Fi)).

(** State of the sampling loop: the array [f] being filled, and a
    ghost log of every sample the loop has divided by. *)
Record loop_state := {
  f_arr : list float64;
  divisors : list float64
}.

(** One iteration of [for idx, Fi in enumerate(F)].  [Fi] is a NumPy
    scalar, so the division by it never raises. *)
Definition loop_body (Ks delta_theta psi rain_intensity F_p : float64)
    (st : loop_state) (it : nat * float64) : loop_state :=
  let '(idx, Fi) := it in
  if leb Fi F_p then
    {| f_arr := <[idx := rain_intensity]> (f_arr st);
       divisors := divisors st |}
  else
    {| f_arr := <[idx := green_ampt_rate Ks delta_theta psi Fi]> (f_arr st);
       divisors := divisors st ++ [Fi] |}.

Definition enumerate {A} (l : list A) : list (nat * A) := imap pair l.

(** The value the loop stores for one sample. *)
Definition sampled_rate (Ks delta_theta psi rain_intensity F_p Fi : float64)
    : float64 :=
  if leb Fi F_p then rain_intensity
  else green_ampt_rate Ks delta_theta psi Fi.

Definition sample_loop (Ks delta_theta psi rain_intensity F_p : float64)
    (F : list float64) : loop_state :=
  foldl (loop_body Ks delta_theta psi rain_intensity F_p)
        {| f_arr := replicate (length F) zero; divisors := [] |}
        (enumerate F).

(** [compute_infiltration], returning next to the tuple [(F, f, F_p, t_p)]
    of the script the ghost log of the loop. *)
Definition compute_infiltration_run
    (Ks theta_s theta_i psi rain_intensity F_max : float64) (n_points : Z)
    : result (list float64 * list float64 * float64 * float64 * list float64) :=
  let delta_theta := sub theta_s theta_i in
  ratio ← py_div rain_intensity Ks;
  F_p ← py_div (mul delta_theta psi) (sub one ratio);
  t_p ← py_div F_p Ks;
  F ← linspace zero F_max n_points;
  let st := sample_loop Ks delta_theta psi rain_intensity F_p F in
  Ok (F, f_arr st, F_p, t_p, divisors st).

Definition compute_infiltration
    (Ks theta_s theta_i psi rain_intensity F_max : float64) (n_points : Z)
    : result (list float64 * list float64 * float64 * float64) :=
  fst <$> compute_infiltration_run Ks theta_s theta_i psi rain_intensity
                                   F_max n_points.

(** The constants of the [__main__] block and the default arguments
    ([F_max=1.0], [n_points=500]). *)
Definition Ks_hw : float64 := Eval vm_compute in of_decimal 53 2.
Definition theta_s_hw : float64 := Eval vm_compute in of_decimal 518 3.
Definition theta_i_hw : float64 := Eval vm_compute in of_decimal 215 3.
Definition psi_hw : float64 := Eval vm_compute in of_decimal (-937) 2.
Definition rain_hw : float64 := Eval vm_compute in of_decimal 65 1.
Definition F_max_default : float64 := Eval vm_compute in of_decimal 10 1.
Definition n_points_default : Z := 500.

End Infiltration.

(* ===================================================================== *)
(** * zip_code_centroids.py *)
(* ===================================================================== *)

Module Centroids.

(** A Shapely geometry; the script only ever builds points. *)
Inductive geometry :=
  | Point (x y : float64).

Definition point_x (g : geometry) : float64 := let 'Point x _ := g in x.
Definition point_y (g : geometry) : float64 := let 'Point _ y := g in y.

(** A cell of a DataFrame.  A missing value is the float NaN, as in
    pandas' object and float64 columns. *)
Inductive cell :=
  | Str (s : string)
  | Num (x : float64)
  | Geom (g : geometry).

Definition NaN : cell := Num nan.

Definition isna (c : cell) : bool :=
  match c with
  | Num x => is_nan x
  | _ => false
  end.

Record DataFrame := {
  columns : list string;
  rows : list (gmap string cell)
}.

Definition cell_at (r : gmap string cell) (c : string) : cell :=
  default NaN (r !! c).

(** A row holding exactly the columns [cols], with [f c] in column [c]. *)
Definition build_row (cols : list string) (f : string → cell)
    : gmap string cell :=
  list_to_map ((λ c, (c, f c)) <$> cols).

(** [df[c]] *)
Definition getitem (df : DataFrame) (c : string) : result (list cell) :=
  if decide (c ∈ columns df) then Ok ((λ r, cell_at r c) <$> rows df)
  else Raise (KeyError c).

(** The column index after an assignment to column [c]: unchanged when
    the column exists, extended at the end otherwise. *)
Definition add_col (c : string) (cols : list string) : list string :=
  if decide (c ∈ cols) then cols else cols ++ [c].

(** [df[c] = vs], for a plain list [vs]: positional, lengths must agree. *)
Definition setitem (df : DataFrame) (c : string) (vs : list cell)
    : result DataFrame :=
  if decide (length vs = length (rows df)) then
    Ok {| columns := add_col c (columns df);
          rows := zip_with (λ r v, <[c := v]> r) (rows df) vs |}
  else Raise ValueError.

(** [df[cols]] for a list of column names. *)
Definition select (df : DataFrame) (cols : list string) : result DataFrame :=
  match List.find (λ c, bool_decide (c ∉ columns df)) cols with
  | Some c => Raise (KeyError c)
  | None =>
      Ok {| columns := cols;
            rows := (λ r, build_row cols (cell_at r)) <$> rows df |}
  end.

(** [df.dropna(subset=cols)] *)
Definition keep_row (cols : list string) (r : gmap string cell) : bool :=
  forallb (λ c, negb (isna (cell_at r c))) cols.

Definition dropna (df : DataFrame) (cols : list string) : result DataFrame :=
  match List.find (λ c, bool_decide (c ∉ columns df)) cols with
  | Some c => Raise (KeyError c)
  | None =>
      Ok {| columns := columns df;
            rows := List.filter (keep_row cols) (rows df) |}
  end.

(** The input file, already cut into lines and fields (the tokenizer is
    the library's): the header and, for every data line, its fields by
    column name (a short line lacks its last columns). *)
Record raw_table := {
  header : list string;
  records : list (gmap string string)
}.

(** The strings [pd.read_csv] takes for a missing value by default
    ([keep_default_na=True]).  [dtype=str] does not switch this off: such
    a field is read as NaN, every other field as its text. *)
Definition STR_NA_VALUES : list string :=
  [ ""; "#N/A"; "#N/A N/A"; "#NA"; "-1.#IND"; "-1.#QNAN"; "-NaN"; "-nan";
    "1.#IND"; "1.#QNAN"; "<NA>"; "N/A"; "NA"; "NULL"; "NaN"; "None";
    "n/a"; "nan"; "null" ].

Definition is_na_marker (s : string) : bool :=
  bool_decide (s ∈ STR_NA_VALUES).

Definition read_field (o : option string) : cell :=
  match o with
  | Some s => if is_na_marker s then NaN else Str s
  | None => NaN
  end.

(** [pd.read_csv(GAZETTEER_FILE, delimiter="|", dtype=str)] *)
Definition read_csv (t : raw_table) : DataFrame :=
  {| columns := header t;
     rows := (λ rec, build_row (header t) (λ c, read_field (rec !! c)))
               <$> records t |}.

(** [[f(x) for x in l]] where [f] may raise. *)
Fixpoint traverse {A B} (f : A → result B) (l : list A) : result (list B) :=
  match l with
  | [] => Ok []
  | x :: l' => y ← f x; ys ← traverse f l'; Ok (y :: ys)
  end.

(** [Point(xy)] for a pair taken from two numeric columns. *)
Definition mk_point (xy : cell * cell) : result geometry :=
  match xy with
  | (Num x, Num y) => Ok (Point x y)
  | _ => Raise TypeError
  end.

Record GeoDataFrame := {
  frame : DataFrame;
  crs : string
}.

(** [gpd.GeoDataFrame(df, geometry=geometry, crs=tag)] *)
Definition mk_GeoDataFrame (df : DataFrame) (geometry : list geometry)
    (tag : string) : result GeoDataFrame :=
  df' ← setitem df "geometry" (Geom <$> geometry);
  Ok {| frame := df'; crs := tag |}.

Section Pipeline.

(** The two library routines the script relies on and this
    development leaves open: the numeric reader behind
    [pd.to_numeric] ([None] where it rejects the text), and the
    decimal rendering of a finite float. *)
Context (parse_float : string → option float64).
Context (repr_finite : float64 → string).

Definition str_of_float (x : float64) : string :=
  match x with
  | S754_nan => "nan"
  | S754_infinity false => "inf"
  | S754_infinity true => "-inf"
  | _ => repr_finite x
  end.

Definition wkt (g : geometry) : string :=
  "POINT (" +:+ str_of_float (point_x g) +:+ " "
            +:+ str_of_float (point_y g) +:+ ")".

(** [series.astype(str)], cell by cell, on an object column: text stays
    as it is and a missing value becomes the text ["nan"].  (Where the
    column has the newer string dtype the missing value stays missing;
    in both cases the text of the field is gone.) *)
Definition astype_str (c : cell) : cell :=
  match c with
  | Str s => Str s
  | Num x => Str (str_of_float x)
  | Geom g => Str (wkt g)
  end.

(** [pd.to_numeric(series, errors="coerce")], cell by cell. *)
Definition to_numeric_coerce (c : cell) : cell :=
  match c with
  | Str s =>
      match parse_float s with
      | Some x => Num x
      | None => NaN
      end
  | Num x => Num x
  | Geom _ => NaN
  end.

(** [main], up to and including the frame handed to [to_file]; writing
    the shapefile, reading it back and plotting are the library's. *)
Definition main (t : raw_table) : result GeoDataFrame :=
  let df := read_csv t in
  geoid ← getitem df "GEOID";
  df ← setitem df "ZIP" (astype_str <$> geoid);
  lat ← getitem df "INTPTLAT";
  df ← setitem df "INTPTLAT" (to_numeric_coerce <$> lat);
  lon ← getitem df "INTPTLONG";
  df ← setitem df "INTPTLONG" (to_numeric_coerce <$> lon);
  df ← dropna df ["INTPTLAT"; "INTPTLONG"];
  lons ← getitem df "INTPTLONG";
  lats ← getitem df "INTPTLAT";
  geometry ← traverse mk_point (zip lons lats);
  gdf ← mk_GeoDataFrame df geometry "EPSG:4326";
  df ← select (frame gdf) ["ZIP"; "geometry"];
  Ok {| frame := df; crs := crs gdf |}.

(** What the pipeline makes of one input record, read off the
    record alone. *)
Definition coord (rec : gmap string string) (c : string) : float64 :=
  match to_numeric_coerce (read_field (rec !! c)) with
  | Num x => x
  | _ => nan
  end.

Definition malformed (rec : gmap string string) : bool :=
  is_nan (coord rec "INTPTLAT") || is_nan (coord rec "INTPTLONG").

Definition zip_of (rec : gmap string string) : cell :=
  astype_str (read_field (rec !! "GEOID")).

Definition centroid_of (rec : gmap string string) : geometry :=
  Point (coord rec "INTPTLONG") (coord rec "INTPTLAT").

Definition out_row (rec : gmap string string) : gmap string cell :=
  {[ "ZIP" := zip_of rec; "geometry" := Geom (centroid_of rec) ]}.

Definition record_pair (rec : gmap string string) : cell * cell :=
  (zip_of rec, Geom (centroid_of rec)).

(** The input records that pass the coordinate validation, in
    file order. *)
Definition survivors (t : raw_table) : list (gmap string string) :=
  List.filter (λ rec, negb (malformed rec)) (records t).

(** The same validation read off the text of the input alone, without
    the frame operations: the number a coordinate field stands for, if
    it is there, is not a missing-value marker (the empty field is one),
    and the numeric reader gives a number for it. *)
Definition usable_number (o : option string) : option float64 :=
  match o with
  | Some s =>
      if is_na_marker s then None
      else match parse_float s with
           | Some x => if is_nan x then None else Some x
           | None => None
           end
  | None => None
  end.

(** A record one of whose two coordinate fields is empty or not numeric. *)
Definition bad_coordinates (rec : gmap string string) : bool :=
  match usable_number (rec !! "INTPTLAT"),
        usable_number (rec !! "INTPTLONG") with
  | Some _, Some _ => false
  | _, _ => true
  end.

End Pipeline.

(** The (identifier, geometry) pairs of a written dataset, in order. *)
Definition pairs (g : GeoDataFrame) : list (cell * cell) :=
  (λ r, (cell_at r "ZIP", cell_at r "geometry")) <$> rows (frame g).

(** A reader for plain decimal literals ([-73.046388], [40.0], [7]),
    the form the gazetteer uses; it stands in for the numeric reader
    in the worked examples. *)
Definition digit_of (a : ascii) : option Z :=
  let n := Z.of_N (N_of_ascii a) in
  if ((48 <=? n) && (n <=? 57))%Z then Some (n - 48)%Z else None.

Fixpoint scan (s : string) (acc : Z) (frac : option nat) (any : bool)
    : option (Z * nat) :=
  match s with
  | EmptyString => if any then Some (acc, default 0%nat frac) else None
  | String a r =>
      if Ascii.eqb a "." then
        match frac with
        | None => scan r acc (Some 0%nat) any
        | Some _ => None
        end
      else
        match digit_of a with
        | Some d => scan r (10 * acc + d)%Z (S <$> frac) true
        | None => None
        end
  end.

Definition parse_decimal (s : string) : option float64 :=
  let '(neg, r) :=
    match s with
    | String "-" r => (true, r)
    | String "+" r => (false, r)
    | _ => (false, s)
    end in
  '(n, k) ← scan r 0%Z None false;
  Some ((if neg then SFopp else id) (of_decimal n k)).

(** The pipeline renders no finite float (the identifier column holds
    text or NaN); this rendering stands in for Python's in the
    examples. *)
Definition no_repr (x : float64) : string := "".

(** Identifiers as the gazetteer has them: strings of decimal digits. *)
Fixpoint all_digits (s : string) : bool :=
  match s with
  | EmptyString => true
  | String a r =>
      match digit_of a with
      | Some _ => all_digits r
      | None => false
      end
  end.

(** Three lines in the shape of the gazetteer, the second one with an
    empty latitude. *)
Definition gazetteer_sample : raw_table :=
  {| header := ["GEOID"; "ALAND"; "INTPTLAT"; "INTPTLONG"];
     records :=
       [ {[ "GEOID" := "00501"; "ALAND" := "65161";
            "INTPTLAT" := "40.0"; "INTPTLONG" := "-75.0" ]};
         {[ "GEOID" := "00544"; "ALAND" := "65161";
            "INTPTLAT" := ""; "INTPTLONG" := "-73.046388" ]};
         {[ "GEOID" := "00601"; "ALAND" := "166836392";
            "INTPTLAT" := "18.180555"; "INTPTLONG" := "-66.749961" ]} ] |}.

(** Two lines with valid coordinates whose identifier field is one of
    the reader's missing-value markers. *)
Definition na_sample : raw_table :=
  {| header := ["GEOID"; "INTPTLAT"; "INTPTLONG"];
     records :=
       [ {[ "GEOID" := "NA"; "INTPTLAT" := "40.0"; "INTPTLONG" := "-75.0" ]};
         {[ "GEOID" := ""; "INTPTLAT" := "18.180555";
            "INTPTLONG" := "-66.749961" ]} ] |}.

End Centroids.


Import Infiltration Centroids.

(* ===================================================================== *)
(** * Facts about binary64 comparison and division *)
(* ===================================================================== *)

Lemma SFcompare_antisym (x y : float64) :
  SFcompare y x = CompOpp <$> SFcompare x y.
Proof.
  destruct x as [sx|sx| |sx mx ex], y as [sy|sy| |sy my ey]; simpl;
    try reflexivity; try (destruct sx; reflexivity);
    try (destruct sy; reflexivity); try (destruct sx, sy; reflexivity).
  destruct sx, sy; try reflexivity; simpl; f_equal;
    rewrite (Z.compare_antisym ey ex);
    destruct (ey ?= ex)%Z eqn:E; simpl; try reflexivity.
  all: fold (Pos.compare my mx); fold (Pos.compare mx my);
    rewrite (Pos.compare_antisym my mx);
    destruct (my ?= mx)%positive; reflexivity.
Qed.

Lemma ltb_not_leb x y : ltb x y = true → leb y x = false.
Proof.
  unfold ltb, leb, SFltb, SFleb. rewrite (SFcompare_antisym x y).
  destruct (SFcompare x y) as [[]|]; simpl; congruence.
Qed.

(** A comparison [x <= y] that fails with [y] a number means [y < x],
    or [x] is not a number. *)
Lemma not_leb_cases x y :
  leb x y = false → is_nan y = false → ltb y x = true ∨ is_nan x = true.
Proof.
  unfold ltb, leb, SFltb, SFleb. rewrite (SFcompare_antisym x y).
  destruct (SFcompare x y) as [[]|] eqn:E; simpl; try congruence; auto.
  intros _ Hy. right. destruct x, y; simpl in *; try congruence; reflexivity.
Qed.

(** Both zeros compare alike. *)
Lemma leb_zero_l x y : is_zero x = true → leb zero y = true → leb x y = true.
Proof.
  destruct x; simpl; try congruence. intros _. destruct y; simpl; auto.
Qed.

Lemma new_location_0 m : new_location m 0 = loc_Exact.
Proof. unfold new_location. destruct (Z.even m); reflexivity. Qed.

(** A finite nonzero float divided by itself is exactly one. *)
Lemma div_self s m e : div (S754_finite s m e) (S754_finite s m e) = one.
Proof.
  unfold div, SFdiv, SFdiv_core_binary.
  replace (Zdigits2 (Z.pos m) + e - (Zdigits2 (Z.pos m) + e))%Z with 0%Z by lia.
  replace (e - e)%Z with 0%Z by lia.
  change (Z.min (fexp prec emax 0) 0) with (-53)%Z.
  change (0 - -53)%Z with 53%Z. cbv iota beta zeta.
  rewrite Z.shiftl_mul_pow2 by lia.
  assert (H : Z.div_eucl (Z.pos m * 2 ^ 53) (Z.pos m) = (2 ^ 53, 0)%Z).
  { pose proof (Z_div_mod_full (Z.pos m * 2 ^ 53) (Z.pos m) ltac:(lia)) as H.
    destruct (Z.div_eucl (Z.pos m * 2 ^ 53) (Z.pos m)) as [q r].
    destruct H as [H1 H2]. unfold Remainder in H2.
    assert (q = 2 ^ 53)%Z by nia. subst q. f_equal. lia. }
  rewrite H. rewrite new_location_0.
  destruct s; reflexivity.
Qed.

Lemma py_div_ok x y : is_zero y = false → py_div x y = Ok (div x y).
Proof. unfold py_div. by intros ->. Qed.

Lemma py_div_raise x y :
  is_zero y = true → py_div x y = Raise ZeroDivisionError.
Proof. unfold py_div. by intros ->. Qed.

Lemma py_div_inv x y z : py_div x y = Ok z → is_zero y = false ∧ z = div x y.
Proof. unfold py_div. destruct (is_zero y); [done|]. by intros [= <-]. Qed.

(** The constants of the script are the floats nearest to their decimal
    literals: each lies within half a unit in the last place. *)
Lemma homework_constants_nearest :
  (Qabs (to_Q Ks_hw - (53 # 100)) <= 1 # 2 ^ 54)%Q ∧
  (Qabs (to_Q theta_s_hw - (518 # 1000)) <= 1 # 2 ^ 54)%Q ∧
  (Qabs (to_Q theta_i_hw - (215 # 1000)) <= 1 # 2 ^ 56)%Q ∧
  (Qabs (to_Q psi_hw - (-937 # 100)) <= 1 # 2 ^ 50)%Q ∧
  (to_Q rain_hw == 65 # 10)%Q ∧ (to_Q F_max_default == 1)%Q.
Proof. repeat split; vm_compute; congruence. Qed.

(* ===================================================================== *)
(** * The sampling loop *)
(* ===================================================================== *)

Section Loop.
Context (Ks delta_theta psi rain_intensity F_p : float64).

Local Abbreviation rate := (sampled_rate Ks delta_theta psi rain_intensity F_p).
Local Abbreviation body := (loop_body Ks delta_theta psi rain_intensity F_p).

(** Running the loop over [l], whose elements carry the indices
    [k, k+1, ...]: the array keeps its length, slots [k ..] receive the
    rates, the other slots are untouched, and the log grows by the
    samples that took the second branch. *)
Lemma loop_from (l : list float64) : ∀ (k : nat) (st : loop_state),
  k + length l ≤ length (f_arr st) →
  let st' := foldl body st (imap (λ i x, (k + i, x)) l) in
  length (f_arr st') = length (f_arr st) ∧
  divisors st' = divisors st ++ List.filter (λ Fi, negb (leb Fi F_p)) l ∧
  ∀ i, f_arr st' !! i =
         if decide (k ≤ i < k + length l) then rate <$> l !! (i - k)
         else f_arr st !! i.
Proof.
  induction l as [|x l IH]; intros k st Hlen;
    cbn [imap foldl length List.filter] in *.
  - rewrite app_nil_r. cbn zeta. repeat split; try done.
    intros i. case_decide; [lia | done].
  - rewrite (imap_ext _ (λ i y, (S k + i, y)) l)
      by (intros; simpl; f_equal; lia).
    cbn zeta. replace (k + 0) with k by lia.
    set (st1 := body st (k, x)).
    assert (Hl1 : length (f_arr st1) = length (f_arr st)).
    { unfold st1, loop_body. destruct (leb x F_p); simpl; apply length_insert. }
    destruct (IH (S k) st1) as (IH1 & IH2 & IH3); [lia|].
    split; [congruence|]. split.
    + rewrite IH2. unfold st1, loop_body.
      destruct (leb x F_p); simpl; [done | by rewrite <- app_assoc].
    + intros i. rewrite IH3.
      destruct (decide (i = k)) as [->|Hne].
      * rewrite decide_False by lia. rewrite decide_True by lia.
        replace (k - k) with 0 by lia. simpl.
        unfold st1, loop_body, sampled_rate.
        destruct (leb x F_p); simpl; apply list_lookup_insert_eq; lia.
      * assert (Hst1 : f_arr st1 !! i = f_arr st !! i).
        { unfold st1, loop_body.
          destruct (leb x F_p); simpl; by apply list_lookup_insert_ne. }
        repeat case_decide; try lia; try done.
        replace (i - k) with (S (i - S k)) by lia. done.
Qed.

Lemma sample_loop_spec (F : list float64) :
  f_arr (sample_loop Ks delta_theta psi rain_intensity F_p F) = rate <$> F ∧
  divisors (sample_loop Ks delta_theta psi rain_intensity F_p F)
    = List.filter (λ Fi, negb (leb Fi F_p)) F.
Proof.
  unfold sample_loop, enumerate.
  change (imap pair F) with (imap (λ i x, (0 + i, x)) F).
  destruct (loop_from F 0
              {| f_arr := replicate (length F) zero; divisors := [] |})
    as (H1 & H2 & H3).
  { simpl. rewrite length_replicate. lia. }
  cbn [f_arr divisors] in *. split; [|exact H2].
  apply list_eq. intros i. rewrite (H3 i), list_lookup_fmap.
  case_decide as Hi.
  - by replace (i - 0) with i by lia.
  - rewrite (lookup_ge_None_2 F) by lia.
    simpl. apply lookup_ge_None_2. rewrite length_replicate. lia.
Qed.

End Loop.

(* ===================================================================== *)
(** * Properties of [compute_infiltration] *)
(* ===================================================================== *)

Lemma linspace_ok start stop num :
  (0 ≤ num)%Z → ∃ F, linspace start stop num = Ok F.
Proof.
  intros H. unfold linspace.
  destruct (num <? 0)%Z eqn:E; [lia|]. eauto.
Qed.

(** What a run that returns has computed. *)
Lemma compute_infiltration_run_inv
    Ks theta_s theta_i psi rain F_max n F f F_p t_p log :
  compute_infiltration_run Ks theta_s theta_i psi rain F_max n
    = Ok (F, f, F_p, t_p, log) →
  let delta_theta := sub theta_s theta_i in
  is_zero Ks = false ∧
  is_zero (sub one (div rain Ks)) = false ∧
  F_p = ponding_volume Ks delta_theta psi rain ∧
  t_p = div F_p Ks ∧
  linspace zero F_max n = Ok F ∧
  f = sampled_rate Ks delta_theta psi rain F_p <$> F ∧
  log = List.filter (λ Fi, negb (leb Fi F_p)) F.
Proof.
  unfold compute_infiltration_run. intros H. cbn zeta.
  destruct (py_div rain Ks) as [ratio|] eqn:E1; [|done].
  apply py_div_inv in E1 as [HKs ->]. cbn [mbind result_bind] in H.
  destruct (py_div _ (sub one _)) as [Fp|] eqn:E2; [|done].
  apply py_div_inv in E2 as [Hden ->]. cbn [mbind result_bind] in H.
  destruct (py_div _ Ks) as [tp|] eqn:E3; [|done].
  apply py_div_inv in E3 as [_ ->]. cbn [mbind result_bind] in H.
  destruct (linspace zero F_max n) as [F'|] eqn:E4; [|done].
  cbn [mbind result_bind] in H.
  destruct (sample_loop_spec Ks (sub theta_s theta_i) psi rain
              (div (mul (sub theta_s theta_i) psi) (sub one (div rain Ks))) F')
    as [Hf Hlog].
  injection H as <- <- <- <- <-.
  repeat split; done.
Qed.

Lemma compute_infiltration_inv
    Ks theta_s theta_i psi rain F_max n F f F_p t_p :
  compute_infiltration Ks theta_s theta_i psi rain F_max n
    = Ok (F, f, F_p, t_p) →
  ∃ log, compute_infiltration_run Ks theta_s theta_i psi rain F_max n
           = Ok (F, f, F_p, t_p, log).
Proof.
  unfold compute_infiltration.
  destruct (compute_infiltration_run _ _ _ _ _ _ _) as [[r log]|]; [|done].
  cbn. intros [= ->]. eauto.
Qed.




(** C5.  With the constants of the script ([Ks = 0.53],
    [theta_s = 0.518], [theta_i = 0.215], [psi = -9.37],
    [rain_intensity = 6.5], defaults [F_max = 1.0], [n_points = 500])
    [compute_infiltration] returns, and its [F_p] is
    [delta_theta * psi / (1 - rain_intensity / Ks)] and its [t_p] is
    [F_p / Ks], both evaluated in binary64 (0.25204829145728647 and
    0.47556281407035178); [delta_theta = theta_s - theta_i] is 0.303 up
    to rounding (within 1e-15). *)
Theorem homework_ponding :
  ∃ F f F_p t_p,
    compute_infiltration Ks_hw theta_s_hw theta_i_hw psi_hw rain_hw
                         F_max_default n_points_default
      = Ok (F, f, F_p, t_p) ∧
    F_p = ponding_volume Ks_hw (sub theta_s_hw theta_i_hw) psi_hw rain_hw ∧
    t_p = div F_p Ks_hw ∧
    F_p = S754_finite false 4540498365945622 (-54) ∧
    t_p = S754_finite false 8566978048954003 (-54) ∧
    (Qabs (to_Q (sub theta_s_hw theta_i_hw) - (303 # 1000))
       < (1 # 1000000000000000))%Q ∧
    length F = 500%nat ∧ length f = 500%nat.
Proof.
  destruct (compute_infiltration Ks_hw theta_s_hw theta_i_hw psi_hw rain_hw
              F_max_default n_points_default)
    as [[[[F f] F_p] t_p]|] eqn:E; [|exfalso; vm_compute in E; discriminate E].
  exists F, f, F_p, t_p. split; [reflexivity|].
  pose proof E as E'.
  apply compute_infiltration_inv in E' as [log E'].
  apply compute_infiltration_run_inv in E' as (_ & _ & HFp & Htp & HF & Hf & _).
  split; [exact HFp|]. split; [exact Htp|].
  assert (HFp' : F_p = S754_finite false 4540498365945622 (-54)).
  { rewrite HFp. vm_compute. reflexivity. }
  split; [exact HFp'|]. split.
  { rewrite Htp, HFp'. vm_compute. reflexivity. }
  split; [vm_compute; reflexivity|].
  assert (HlenF : length F = 500%nat).
  { assert (H : length <$> linspace zero F_max_default n_points_default
                = Ok 500%nat) by (vm_compute; reflexivity).
    rewrite HF in H. by injection H. }
  split; [exact HlenF|]. rewrite Hf, length_fmap. exact HlenF.
Qed.

(** C6, as stated, fails where [rain_intensity = Ks]: with both equal
    to 0.53 (so [rain_intensity <= Ks]) the denominator is zero, Python
    raises [ZeroDivisionError] at the division, and no [F_p] is
    returned. *)
Lemma rain_equal_Ks_raises :
  leb Ks_hw Ks_hw = true ∧
  compute_infiltration Ks_hw theta_s_hw theta_i_hw psi_hw Ks_hw
                       F_max_default n_points_default
    = Raise ZeroDivisionError ∧
  ¬ ∃ F f F_p t_p,
      compute_infiltration Ks_hw theta_s_hw theta_i_hw psi_hw Ks_hw
                           F_max_default n_points_default
        = Ok (F, f, F_p, t_p).
Proof.
  assert (H : compute_infiltration Ks_hw theta_s_hw theta_i_hw psi_hw Ks_hw
                F_max_default n_points_default = Raise ZeroDivisionError)
    by (vm_compute; reflexivity).
  split; [vm_compute; reflexivity|]. split; [exact H|].
  intros (F & f & F_p & t_p & E). rewrite H in E. discriminate E.
Qed.

(** C6, amended.  [compute_infiltration] has no guard of its own on the
    denominator [1 - rain_intensity / Ks].  For [n_points >= 0]:
    whenever [Ks] and the computed denominator are nonzero, the division
    is performed and [F_p = delta_theta * psi / (1 - rain_intensity / Ks)]
    is returned whatever its sign or finiteness, with [t_p = F_p / Ks];
    whenever [Ks] or the computed denominator is zero, Python's
    [ZeroDivisionError] is raised and no [F_p] is returned; the latter
    is the case whenever [rain_intensity] equals a finite nonzero [Ks]. *)
Theorem ponding_volume_unguarded Ks theta_s theta_i psi rain F_max n :
  (0 ≤ n)%Z →
  let delta_theta := sub theta_s theta_i in
  let denominator := sub one (div rain Ks) in
  (is_zero Ks = false → is_zero denominator = false →
     ∃ F f, compute_infiltration Ks theta_s theta_i psi rain F_max n
            = Ok (F, f, ponding_volume Ks delta_theta psi rain,
                  div (ponding_volume Ks delta_theta psi rain) Ks)) ∧
  (is_zero Ks = true ∨ is_zero denominator = true →
     compute_infiltration Ks theta_s theta_i psi rain F_max n
       = Raise ZeroDivisionError) ∧
  (∀ s m e, Ks = S754_finite s m e → rain = Ks →
     compute_infiltration Ks theta_s theta_i psi rain F_max n
       = Raise ZeroDivisionError).
Proof.
  intros Hn delta_theta denominator.
  assert (Hraise : is_zero Ks = true ∨ is_zero denominator = true →
     compute_infiltration Ks theta_s theta_i psi rain F_max n
       = Raise ZeroDivisionError).
  { unfold compute_infiltration, compute_infiltration_run. intros [H|H].
    - by rewrite (py_div_raise _ _ H).
    - destruct (is_zero Ks) eqn:HKs; [by rewrite (py_div_raise _ _ HKs)|].
      rewrite (py_div_ok _ _ HKs). cbn [mbind result_bind].
      fold denominator. by rewrite (py_div_raise _ _ H). }
  split; [|split; [exact Hraise|]].
  - intros HKs Hden.
    destruct (linspace_ok zero F_max n Hn) as [F HF].
    exists F, (sampled_rate Ks delta_theta psi rain
                 (ponding_volume Ks delta_theta psi rain) <$> F).
    unfold compute_infiltration, compute_infiltration_run.
    rewrite (py_div_ok _ _ HKs). cbn [mbind result_bind].
    fold delta_theta denominator.
    rewrite (py_div_ok _ _ Hden). cbn [mbind result_bind].
    rewrite (py_div_ok _ _ HKs). cbn [mbind result_bind].
    rewrite HF. cbn [mbind result_bind fmap result_fmap fst].
    do 4 f_equal.
    apply (sample_loop_spec Ks delta_theta psi rain).
  - intros s m e -> ->. apply Hraise. right.
    unfold denominator. rewrite div_self. reflexivity.
Qed.

Lemma ponding_volume_unguarded_witness :
  ∃ F f, compute_infiltration Ks_hw theta_s_hw theta_i_hw psi_hw
           (of_decimal 25 2) F_max_default n_points_default
         = Ok (F, f, S754_finite true 6050619474262356 (-50),
               S754_finite true 5708131579492788 (-49)).
Proof.
  destruct (ponding_volume_unguarded Ks_hw theta_s_hw theta_i_hw psi_hw
              (of_decimal 25 2) F_max_default n_points_default) as [H _].
  - unfold n_points_default. lia.
  - apply H; vm_compute; reflexivity.
Defined.

(** C10.  In a run of [compute_infiltration] that returns, the loop
    divides by a sample [Fi] only in its second branch, taken when
    [Fi <= F_p] fails.  Whenever [F_p >= 0]: no sample the loop divides
    by is zero (each one exceeds [F_p], or is not a number), so no
    division by zero occurs in the loop; and every sample equal to zero
    takes the first branch and gets the rate [rain_intensity]. *)
Theorem zero_sample_pre_ponding
    Ks theta_s theta_i psi rain F_max n F f F_p t_p log :
  compute_infiltration_run Ks theta_s theta_i psi rain F_max n
    = Ok (F, f, F_p, t_p, log) →
  leb zero F_p = true →
  log = List.filter (λ Fi, negb (leb Fi F_p)) F ∧
  (∀ d, d ∈ log →
     is_zero d = false ∧ (ltb F_p d = true ∨ is_nan d = true)) ∧
  (∀ idx Fi, F !! idx = Some Fi → is_zero Fi = true →
     leb Fi F_p = true ∧ f !! idx = Some rain).
Proof.
  intros H HFp.
  apply compute_infiltration_run_inv in H as (_ & _ & _ & _ & _ & -> & ->).
  split; [reflexivity|]. split.
  - intros d Hd. apply list_elem_of_In, filter_In in Hd as [_ Hd].
    apply negb_true_iff in Hd. split.
    + destruct (is_zero d) eqn:Hz; [|done].
      by rewrite (leb_zero_l _ _ Hz HFp) in Hd.
    + apply not_leb_cases; [exact Hd|].
      destruct F_p; try done.
  - intros idx Fi HFi Hz.
    pose proof (leb_zero_l _ _ Hz HFp) as Hle. split; [exact Hle|].
    rewrite list_lookup_fmap, HFi. cbn [fmap option_fmap option_map].
    unfold sampled_rate. by rewrite Hle.
Qed.

Lemma zero_sample_pre_ponding_witness :
  ∃ F f F_p t_p log,
    compute_infiltration_run Ks_hw theta_s_hw theta_i_hw psi_hw rain_hw
                             F_max_default n_points_default
      = Ok (F, f, F_p, t_p, log) ∧
    F !! 0%nat = Some zero ∧ f !! 0%nat = Some rain_hw ∧
    (∀ d, d ∈ log → is_zero d = false).
Proof.
  destruct (compute_infiltration_run Ks_hw theta_s_hw theta_i_hw psi_hw rain_hw
              F_max_default n_points_default)
    as [[[[[F f] F_p] t_p] log]|] eqn:E; [|vm_compute in E; discriminate E].
  exists F, f, F_p, t_p, log. split; [reflexivity|].
  pose proof E as E'.
  apply compute_infiltration_run_inv in E' as (_ & _ & HFp & _ & HF & _ & _).
  assert (HFp' : leb zero F_p = true) by (rewrite HFp; vm_compute; reflexivity).
  assert (HF0 : F !! 0%nat = Some zero).
  { assert (H : (λ l, l !! 0%nat)
                  <$> linspace zero F_max_default n_points_default
                = Ok (Some zero)) by (vm_compute; reflexivity).
    rewrite HF in H. by injection H. }
  destruct (zero_sample_pre_ponding _ _ _ _ _ _ _ _ _ _ _ _ E HFp')
    as (_ & Hlog & Hzero).
  split; [exact HF0|]. split.
  - apply (Hzero 0%nat zero HF0). reflexivity.
  - intros d Hd. apply (Hlog d Hd).
Defined.

(* ===================================================================== *)
(** * Lists, rows and frames *)
(* ===================================================================== *)

Lemma lookup_build_row cols f c :
  build_row cols f !! c = if decide (c ∈ cols) then Some (f c) else None.
Proof.
  unfold build_row. induction cols as [|c0 cols IH].
  - cbn [fmap list_fmap list_to_map foldr]. rewrite lookup_empty.
    case_decide as H; [by apply elem_of_nil in H | done].
  - cbn [fmap list_fmap list_to_map foldr uncurry fst snd].
    rewrite lookup_insert. destruct (decide (c0 = c)) as [->|Hne].
    + clear IH. case_decide as H; [done|].
      exfalso. apply H, list_elem_of_here.
    + rewrite IH. clear IH. case_decide as H1; case_decide as H2; try done.
      * exfalso. by apply H2, list_elem_of_further.
      * exfalso. apply elem_of_cons in H2 as [->|H2]; done.
Qed.

Lemma cell_at_build_row cols f c :
  c ∈ cols → cell_at (build_row cols f) c = f c.
Proof.
  intros H. unfold cell_at. rewrite lookup_build_row. by rewrite decide_True.
Qed.

Lemma cell_at_insert_eq (r : gmap string cell) c v :
  cell_at (<[c := v]> r) c = v.
Proof. unfold cell_at. by rewrite lookup_insert_eq. Qed.

Lemma cell_at_insert_ne (r : gmap string cell) c c' v :
  c ≠ c' → cell_at (<[c := v]> r) c' = cell_at r c'.
Proof. intros H. unfold cell_at. by rewrite lookup_insert_ne. Qed.

Lemma zip_with_fmap_both {A B C D}
    (f : B → C → D) (g : A → B) (h : A → C) (l : list A) :
  zip_with f (g <$> l) (h <$> l) = (λ x, f (g x) (h x)) <$> l.
Proof. induction l as [|x l IH]; csimpl; [done | by rewrite IH]. Qed.

Lemma filter_fmap {A B} (p : B → bool) (h : A → B) (l : list A) :
  List.filter p (h <$> l) = h <$> List.filter (λ x, p (h x)) l.
Proof.
  induction l as [|x l IH]; csimpl; [done|].
  destruct (p (h x)); csimpl; by rewrite IH.
Qed.

Lemma filter_ext_bool {A} (p q : A → bool) (l : list A) :
  (∀ x, p x = q x) → List.filter p l = List.filter q l.
Proof.
  intros H. induction l as [|x l IH]; simpl; [done|]. by rewrite H, IH.
Qed.

Lemma filter_length_split {A} (p : A → bool) (l : list A) :
  length (List.filter (λ x, negb (p x)) l) + length (List.filter p l)
    = length l.
Proof.
  induction l as [|x l IH]; simpl; [done|]. destruct (p x); simpl; lia.
Qed.

(** Filtering keeps the relative order: two elements of the filtered
    list stand in the same order in the list itself. *)
Lemma filter_lookup_order {A} (p : A → bool) (l : list A) :
  ∀ i j x y, i < j →
    List.filter p l !! i = Some x → List.filter p l !! j = Some y →
    ∃ i' j', i' < j' ∧ l !! i' = Some x ∧ l !! j' = Some y ∧
             p x = true ∧ p y = true.
Proof.
  induction l as [|a l IH]; intros i j x y Hij Hi Hj; simpl in *; [done|].
  destruct (p a) eqn:Hp.
  - destruct i as [|i], j as [|j]; try lia; simpl in *.
    + injection Hi as ->.
      assert (y ∈ List.filter p l) as Hy
        by (eapply list_elem_of_lookup_2; eauto).
      apply list_elem_of_In, filter_In in Hy as [Hy Hpy].
      apply list_elem_of_In, list_elem_of_lookup in Hy as [j' Hj'].
      exists 0, (S j'). repeat split; simpl; auto; lia.
    + destruct (IH i j x y) as (i' & j' & ? & ? & ? & ? & ?); [lia|done|done|].
      exists (S i'), (S j'). repeat split; simpl; auto; lia.
  - destruct (IH i j x y) as (i' & j' & ? & ? & ? & ? & ?); [lia|done|done|].
    exists (S i'), (S j'). repeat split; simpl; auto; lia.
Qed.

Lemma traverse_fmap {A B C} (f : B → result C) (g : A → B) (h : A → C)
    (l : list A) :
  (∀ x, x ∈ l → f (g x) = Ok (h x)) → traverse f (g <$> l) = Ok (h <$> l).
Proof.
  induction l as [|x l IH]; intros H; csimpl; [done|].
  rewrite (H x) by apply list_elem_of_here. cbn [mbind result_bind].
  rewrite IH by (intros y Hy; apply H, list_elem_of_further, Hy). done.
Qed.

Lemma elem_of_add_col c c' cols : c' ∈ add_col c cols ↔ c' = c ∨ c' ∈ cols.
Proof.
  unfold add_col. case_decide as Hc.
  - split; [auto | intros [->|]; done].
  - rewrite elem_of_app, list_elem_of_singleton. tauto.
Qed.

Lemma getitem_fmap {A} cols (h : A → gmap string cell) (l : list A) c :
  c ∈ cols →
  getitem {| columns := cols; rows := h <$> l |} c
    = Ok ((λ x, cell_at (h x) c) <$> l).
Proof.
  intros H. unfold getitem. cbn [columns rows].
  rewrite decide_True by done. by rewrite <- list_fmap_compose.
Qed.

Lemma getitem_missing cols rws c :
  c ∉ cols → getitem {| columns := cols; rows := rws |} c = Raise (KeyError c).
Proof. intros H. unfold getitem. cbn [columns]. by rewrite decide_False. Qed.

Lemma setitem_fmap {A} cols
    (h : A → gmap string cell) (g : A → cell) (l : list A) c :
  setitem {| columns := cols; rows := h <$> l |} c (g <$> l)
    = Ok {| columns := add_col c cols;
            rows := (λ x, <[c := g x]> (h x)) <$> l |}.
Proof.
  unfold setitem. cbn [columns rows].
  rewrite decide_True by (by rewrite !length_fmap).
  rewrite zip_with_fmap_both. reflexivity.
Qed.

Lemma find_missing_none (cols have : list string) :
  (∀ c, c ∈ cols → c ∈ have) →
  List.find (λ c, bool_decide (c ∉ have)) cols = None.
Proof.
  induction cols as [|c cols IH]; intros H; simpl; [done|].
  rewrite bool_decide_eq_false_2
    by (intros Hn; apply Hn, H, list_elem_of_here).
  apply IH. intros c' Hc'. by apply H, list_elem_of_further.
Qed.

(** No string of decimal digits is a missing-value marker. *)
Lemma digits_not_na s : s ≠ "" → all_digits s = true → is_na_marker s = false.
Proof.
  intros Hne Hd. unfold is_na_marker. apply bool_decide_eq_false_2.
  unfold STR_NA_VALUES. intros Hin.
  repeat (apply elem_of_cons in Hin as [->|Hin];
          [first [done | discriminate Hd]|]).
  by apply elem_of_nil in Hin.
Qed.

(* ===================================================================== *)
(** * Properties of the centroid pipeline *)
(* ===================================================================== *)

Section PipelineFacts.
Context (parse_float : string → option float64).
Context (repr_finite : float64 → string).

Local Abbreviation LAT := "INTPTLAT"%string.
Local Abbreviation LONG := "INTPTLONG"%string.

Lemma to_numeric_is_num c :
  to_numeric_coerce parse_float c
    = Num (match to_numeric_coerce parse_float c with
           | Num x => x
           | _ => nan
           end).
Proof.
  destruct c as [s|x|g]; simpl; try done.
  destruct (parse_float s); done.
Qed.

Lemma to_numeric_coord rec c :
  to_numeric_coerce parse_float (read_field (rec !! c))
    = Num (coord parse_float rec c).
Proof. unfold coord. apply to_numeric_is_num. Qed.

(** With the three columns in the header, [main] runs to the end, and
    the frame it writes has one row per surviving record. *)
Lemma main_spec (t : raw_table) :
  "GEOID" ∈ header t → LAT ∈ header t → LONG ∈ header t →
  main parse_float repr_finite t
    = Ok {| frame :=
              {| columns := ["ZIP"; "geometry"];
                 rows := out_row parse_float repr_finite
                           <$> survivors parse_float t |};
            crs := "EPSG:4326" |}.
Proof.
  intros HG HLa HLo. unfold main, read_csv, survivors.
  set (row0 := λ rec : gmap string string,
                 build_row (header t) (λ c, read_field (rec !! c))).
  rewrite getitem_fmap by done. cbn [mbind result_bind].
  rewrite <- list_fmap_compose, setitem_fmap. cbn [mbind result_bind].
  rewrite getitem_fmap by (apply elem_of_add_col; auto).
  cbn [mbind result_bind].
  rewrite <- list_fmap_compose, setitem_fmap. cbn [mbind result_bind].
  rewrite getitem_fmap by (rewrite !elem_of_add_col; auto).
  cbn [mbind result_bind].
  rewrite <- list_fmap_compose, setitem_fmap. cbn [mbind result_bind].
  match goal with
  | |- context [dropna {| columns := ?cols; rows := ?h <$> _ |} _] =>
      set (cols3 := cols); set (row3 := h)
  end.
  assert (Hc3 : ∀ c, c ∈ header t → c ∈ cols3).
  { intros c Hc. unfold cols3. rewrite !elem_of_add_col. auto. }
  assert (HZ3 : "ZIP" ∈ cols3).
  { unfold cols3. rewrite !elem_of_add_col. auto. }
  assert (Hzip : ∀ rec, cell_at (row3 rec) "ZIP" = zip_of repr_finite rec).
  { intros rec. unfold row3, compose.
    rewrite !cell_at_insert_ne by done. rewrite cell_at_insert_eq.
    unfold row0. by rewrite cell_at_build_row. }
  assert (Hlat : ∀ rec,
            cell_at (row3 rec) LAT = Num (coord parse_float rec LAT)).
  { intros rec. unfold row3, compose.
    rewrite cell_at_insert_ne by done. rewrite cell_at_insert_eq.
    rewrite cell_at_insert_ne by done.
    unfold row0. rewrite cell_at_build_row by done. apply to_numeric_coord. }
  assert (Hlon : ∀ rec,
            cell_at (row3 rec) LONG = Num (coord parse_float rec LONG)).
  { intros rec. unfold row3, compose.
    rewrite cell_at_insert_eq.
    rewrite !cell_at_insert_ne by done.
    unfold row0. rewrite cell_at_build_row by done. apply to_numeric_coord. }
  unfold dropna. cbn [columns rows].
  rewrite find_missing_none.
  2:{ intros c Hc. apply Hc3.
      apply elem_of_cons in Hc as [->|Hc]; [done|].
      by apply list_elem_of_singleton in Hc as ->. }
  cbn [mbind result_bind].
  rewrite filter_fmap.
  rewrite (filter_ext_bool _ (λ rec, negb (malformed parse_float rec))).
  2:{ intros rec. unfold keep_row, malformed. cbn [forallb].
      rewrite Hlat, Hlon. cbn [isna].
      rewrite andb_true_r. by rewrite negb_orb. }
  set (kept := List.filter _ (records t)).
  rewrite !getitem_fmap by (apply Hc3; done). cbn [mbind result_bind].
  rewrite (zip_with_fmap_both pair).
  rewrite (traverse_fmap mk_point _ (centroid_of parse_float)).
  2:{ intros rec _. rewrite Hlat, Hlon. done. }
  cbn [mbind result_bind]. unfold mk_GeoDataFrame.
  rewrite <- list_fmap_compose, setitem_fmap.
  cbn [mbind result_bind frame crs].
  unfold select. cbn [columns rows].
  rewrite find_missing_none.
  2:{ intros c Hc. rewrite elem_of_add_col.
      apply elem_of_cons in Hc as [->|Hc]; [auto|].
      apply list_elem_of_singleton in Hc as ->. auto. }
  cbn [mbind result_bind]. do 3 f_equal. rewrite <- list_fmap_compose.
  apply list_fmap_ext. intros _ rec _. unfold compose, build_row, out_row.
  cbn [fmap list_fmap list_to_map foldr uncurry fst snd].
  rewrite cell_at_insert_eq, cell_at_insert_ne by done.
  rewrite Hzip. rewrite insert_empty. done.
Qed.

(** [main] runs to the end only when the three columns exist: a missing
    one raises [KeyError]. *)
Lemma main_ok_inv t gdf :
  main parse_float repr_finite t = Ok gdf →
  "GEOID" ∈ header t ∧ LAT ∈ header t ∧ LONG ∈ header t.
Proof.
  intros H.
  destruct (decide ("GEOID" ∈ header t)) as [HG|HG]; last first.
  { exfalso. revert H. unfold main, read_csv.
    by rewrite getitem_missing. }
  destruct (decide (LAT ∈ header t)) as [HLa|HLa]; last first.
  { exfalso. revert H. unfold main, read_csv.
    rewrite getitem_fmap by done. cbn [mbind result_bind].
    rewrite <- list_fmap_compose, setitem_fmap. cbn [mbind result_bind].
    rewrite getitem_missing; [done|].
    rewrite elem_of_add_col. intros [?|?]; done. }
  destruct (decide (LONG ∈ header t)) as [HLo|HLo]; [done|].
  exfalso. revert H. unfold main, read_csv.
  rewrite getitem_fmap by done. cbn [mbind result_bind].
  rewrite <- list_fmap_compose, setitem_fmap. cbn [mbind result_bind].
  rewrite getitem_fmap by (apply elem_of_add_col; auto).
  cbn [mbind result_bind].
  rewrite <- list_fmap_compose, setitem_fmap. cbn [mbind result_bind].
  rewrite getitem_missing; [done|].
  rewrite !elem_of_add_col. intros [?|[?|?]]; done.
Qed.

Lemma main_inv t gdf :
  main parse_float repr_finite t = Ok gdf →
  gdf = {| frame :=
             {| columns := ["ZIP"; "geometry"];
                rows := out_row parse_float repr_finite
                          <$> survivors parse_float t |};
           crs := "EPSG:4326" |}.
Proof.
  intros H. destruct (main_ok_inv t gdf H) as (HG & HLa & HLo).
  rewrite (main_spec t HG HLa HLo) in H. by injection H.
Qed.

Lemma pairs_out_row (l : list (gmap string string)) c :
  pairs {| frame := {| columns := c;
                       rows := out_row parse_float repr_finite <$> l |};
           crs := "EPSG:4326" |}
    = record_pair parse_float repr_finite <$> l.
Proof.
  unfold pairs. cbn [frame rows]. rewrite <- list_fmap_compose.
  apply list_fmap_ext. intros _ rec _. unfold compose, out_row, record_pair.
  rewrite cell_at_insert_eq, cell_at_insert_ne by done.
  unfold cell_at. by rewrite lookup_singleton_eq.
Qed.

Lemma zip_of_text rec s :
  rec !! "GEOID" = Some s → is_na_marker s = false →
  zip_of repr_finite rec = Str s.
Proof. intros Hs Hna. unfold zip_of, read_field. by rewrite Hs, Hna. Qed.

Lemma coord_missing rec c :
  (rec !! c = None ∨ rec !! c = Some "" ∨
   ∃ s, rec !! c = Some s ∧ parse_float s = None) →
  coord parse_float rec c = nan.
Proof.
  unfold coord.
  intros [H|[H|(s & H & Hp)]]; rewrite H; cbn [read_field]; try done.
  destruct (is_na_marker s); cbn [to_numeric_coerce NaN]; [done|].
  by rewrite Hp.
Qed.

(** Where the script keeps its promise.  In a run of [main] that writes
    a dataset, the output has one (identifier, geometry) pair per
    surviving record, and for every surviving record whose identifier
    field [s] is not one of the reader's missing-value markers the
    identifier written at its position is [s] itself, character for
    character, whatever the numeric reader and the float rendering are
    (neither is applied to it).  No non-empty string of decimal digits
    is such a marker, so the leading zeros of a ZIP code are kept. *)
Theorem identifier_preserved t gdf :
  main parse_float repr_finite t = Ok gdf →
  length (pairs gdf) = length (survivors parse_float t) ∧
  (∀ i rec s,
     survivors parse_float t !! i = Some rec →
     rec !! "GEOID" = Some s → is_na_marker s = false →
     fst <$> pairs gdf !! i = Some (Str s)) ∧
  (∀ s, s ≠ "" → all_digits s = true → is_na_marker s = false).
Proof.
  intros H. rewrite (main_inv t gdf H), pairs_out_row.
  split; [by rewrite length_fmap|]. split; [|exact digits_not_na].
  intros i rec s Hi Hs Hna.
  rewrite list_lookup_fmap, Hi. cbn.
  by rewrite (zip_of_text rec s Hs Hna).
Qed.

Lemma coord_usable rec c :
  match usable_number parse_float (rec !! c) with
  | Some x => coord parse_float rec c = x ∧ is_nan x = false
  | None => is_nan (coord parse_float rec c) = true
  end.
Proof.
  unfold usable_number, coord, read_field.
  destruct (rec !! c) as [s|]; [|reflexivity].
  destruct (is_na_marker s); [reflexivity|]. cbn [to_numeric_coerce].
  destruct (parse_float s) as [x|]; [|reflexivity].
  destruct (is_nan x) eqn:Hx; [reflexivity | by split].
Qed.

(** The drop test of the pipeline and the test on the input text agree. *)
Lemma malformed_bad_coordinates rec :
  malformed parse_float rec = bad_coordinates parse_float rec.
Proof.
  unfold malformed, bad_coordinates.
  pose proof (coord_usable rec LAT) as Ha.
  pose proof (coord_usable rec LONG) as Ho.
  destruct (usable_number parse_float (rec !! LAT)) as [y|];
    destruct (usable_number parse_float (rec !! LONG)) as [x|].
  - destruct Ha as [-> ->], Ho as [-> ->]. reflexivity.
  - destruct Ha as [-> ->]. by rewrite Ho.
  - by rewrite Ha.
  - by rewrite Ha.
Qed.

Lemma usable_number_inv o x :
  usable_number parse_float o = Some x →
  ∃ s, o = Some s ∧ is_na_marker s = false ∧
       parse_float s = Some x ∧ is_nan x = false.
Proof.
  unfold usable_number. destruct o as [s|]; [|done].
  destruct (is_na_marker s) eqn:Hs; [done|].
  destruct (parse_float s) as [y|] eqn:Hp; [|done].
  destruct (is_nan y) eqn:Hy; [done|]. intros [= ->].
  exists s. by repeat split.
Qed.

(** C2.  With the three columns present [main] does not raise.  The
    coercion turns text the numeric reader rejects into NaN instead of
    raising.  A record whose latitude or longitude field is absent,
    empty or rejected by the reader has bad coordinates.  The written
    pairs are, in order, those of the records without bad coordinates:
    their number is the number of input records minus the number of
    records with bad coordinates, and the pair written for such a record
    carries the very numbers the reader gives for its two fields
    (a zero is a zero, nothing is defaulted). *)
Theorem malformed_rows_dropped t :
  "GEOID" ∈ header t → LAT ∈ header t → LONG ∈ header t →
  (∀ s, parse_float s = None → to_numeric_coerce parse_float (Str s) = NaN) ∧
  (∀ rec c, c = LAT ∨ c = LONG →
     (rec !! c = None ∨ rec !! c = Some "" ∨
      ∃ s, rec !! c = Some s ∧ parse_float s = None) →
     bad_coordinates parse_float rec = true) ∧
  ∃ gdf,
    main parse_float repr_finite t = Ok gdf ∧
    length (pairs gdf)
      = length (records t)
        - length (List.filter (bad_coordinates parse_float) (records t)) ∧
    length (pairs gdf)
      = length (List.filter (λ rec, negb (bad_coordinates parse_float rec))
                            (records t)) ∧
    (∀ i rec,
       List.filter (λ rec, negb (bad_coordinates parse_float rec))
                   (records t) !! i = Some rec →
       ∃ slat slon x y,
         rec !! LAT = Some slat ∧ parse_float slat = Some y ∧
         rec !! LONG = Some slon ∧ parse_float slon = Some x ∧
         is_nan x = false ∧ is_nan y = false ∧
         pairs gdf !! i
           = Some (zip_of repr_finite rec, Geom (Point x y))).
Proof.
  intros HG HLa HLo. split; [|split].
  - intros s Hs. cbn. by rewrite Hs.
  - intros rec c Hc Hbad. unfold bad_coordinates.
    assert (Hno : usable_number parse_float (rec !! c) = None).
    { unfold usable_number.
      destruct Hbad as [->|[->|(s & -> & Hs)]]; [done|done|].
      destruct (is_na_marker s); [done|]. by rewrite Hs. }
    destruct Hc as [->| ->]; rewrite Hno; [done|].
    by destruct (usable_number parse_float (rec !! LAT)).
  - assert (Hkept : survivors parse_float t
             = List.filter (λ rec, negb (bad_coordinates parse_float rec))
                           (records t)).
    { unfold survivors. apply filter_ext_bool. intros rec.
      by rewrite malformed_bad_coordinates. }
    eexists. split; [exact (main_spec t HG HLa HLo)|].
    rewrite pairs_out_row, Hkept, length_fmap.
    split; [|split; [reflexivity|]].
    + pose proof (filter_length_split (bad_coordinates parse_float)
                    (records t)). lia.
    + intros i rec Hi.
      assert (Hok : bad_coordinates parse_float rec = false).
      { apply list_elem_of_lookup_2, list_elem_of_In, filter_In in Hi
          as [_ Hi]. by apply negb_true_iff in Hi. }
      unfold bad_coordinates in Hok.
      pose proof (coord_usable rec LAT) as Ha.
      pose proof (coord_usable rec LONG) as Ho.
      destruct (usable_number parse_float (rec !! LAT)) as [y|] eqn:Ey;
        [|done].
      destruct (usable_number parse_float (rec !! LONG)) as [x|] eqn:Ex;
        [|done].
      apply usable_number_inv in Ey as (slat & Hslat & _ & Hy & Hny).
      apply usable_number_inv in Ex as (slon & Hslon & _ & Hx & Hnx).
      exists slat, slon, x, y. repeat (split; [done|]).
      rewrite list_lookup_fmap, Hi. cbn [fmap option_fmap option_map].
      unfold record_pair, centroid_of.
      destruct Ha as [-> _], Ho as [-> _]. reflexivity.
Qed.

(** C3.  In a run of [main] that writes a dataset, the geometry written
    for a surviving record is the point whose first component is the
    record's longitude and whose second is its latitude; a record with
    latitude [40.0] and longitude [-75.0] gets the point with first
    component -75.0 and second component 40.0. *)
Theorem point_lon_lat t gdf :
  main parse_float repr_finite t = Ok gdf →
  (∀ i rec, survivors parse_float t !! i = Some rec →
     snd <$> pairs gdf !! i
       = Some (Geom (Point (coord parse_float rec LONG)
                           (coord parse_float rec LAT)))) ∧
  (parse_float "40.0" = Some (of_Z 40) →
   parse_float "-75.0" = Some (of_Z (-75)) →
   ∀ i rec, survivors parse_float t !! i = Some rec →
     rec !! LAT = Some "40.0" → rec !! LONG = Some "-75.0" →
     ∃ g, snd <$> pairs gdf !! i = Some (Geom g) ∧
          point_x g = of_Z (-75) ∧ point_y g = of_Z 40).
Proof.
  intros H. rewrite (main_inv t gdf H), pairs_out_row.
  assert (Hgen : ∀ i rec, survivors parse_float t !! i = Some rec →
     snd <$> (record_pair parse_float repr_finite
                <$> survivors parse_float t) !! i
       = Some (Geom (Point (coord parse_float rec LONG)
                           (coord parse_float rec LAT)))).
  { intros i rec Hi. rewrite list_lookup_fmap, Hi. done. }
  split; [exact Hgen|].
  intros H40 H75 i rec Hi Hlat Hlon.
  eexists. split; [exact (Hgen i rec Hi)|].
  assert (E40 : is_na_marker "40.0" = false) by (vm_compute; reflexivity).
  assert (E75 : is_na_marker "-75.0" = false) by (vm_compute; reflexivity).
  unfold point_x, point_y, coord, read_field.
  rewrite Hlat, Hlon, E40, E75. cbn [to_numeric_coerce].
  rewrite H40, H75. done.
Qed.

(** C7.  The frame [main] writes has exactly the two columns [ZIP] and
    [geometry]: its column index is that pair, every row holds a string
    under [ZIP], a geometry under [geometry], and nothing under any
    other name. *)
Theorem output_two_fields t gdf :
  main parse_float repr_finite t = Ok gdf →
  columns (frame gdf) = ["ZIP"; "geometry"] ∧
  ∀ r, r ∈ rows (frame gdf) →
    dom r = {[ "ZIP"; "geometry" ]} ∧
    (∃ s, r !! "ZIP" = Some (Str s)) ∧
    (∃ g, r !! "geometry" = Some (Geom g)) ∧
    (∀ c, c ≠ "ZIP" → c ≠ "geometry" → r !! c = None).
Proof.
  intros H. rewrite (main_inv t gdf H). cbn [frame columns rows].
  split; [reflexivity|]. intros r Hr.
  apply list_elem_of_fmap in Hr as (rec & -> & _). unfold out_row.
  split; [|split; [|split]].
  - rewrite dom_insert_L, dom_singleton_L. reflexivity.
  - rewrite lookup_insert_eq. unfold zip_of.
    destruct (read_field (rec !! "GEOID")); cbn; eauto.
  - rewrite lookup_insert_ne by done. rewrite lookup_singleton_eq. eauto.
  - intros c Hc1 Hc2. rewrite lookup_insert_ne by done.
    by rewrite lookup_singleton_ne.
Qed.

(** C8.  The dataset [main] writes is tagged EPSG:4326 and is the
    sequence of (identifier, geometry) pairs of the surviving records in
    file order: any two written pairs come from two input records that
    stand in the same order in the file. *)
Theorem order_preserved t gdf :
  main parse_float repr_finite t = Ok gdf →
  crs gdf = "EPSG:4326" ∧
  pairs gdf = record_pair parse_float repr_finite <$> survivors parse_float t ∧
  ∀ i j a b, i < j →
    pairs gdf !! i = Some a → pairs gdf !! j = Some b →
    ∃ i' j' ra rb,
      i' < j' ∧
      records t !! i' = Some ra ∧ records t !! j' = Some rb ∧
      a = record_pair parse_float repr_finite ra ∧
      b = record_pair parse_float repr_finite rb.
Proof.
  intros H. rewrite (main_inv t gdf H), pairs_out_row. cbn [crs].
  split; [reflexivity|]. split; [reflexivity|].
  intros i j a b Hij Ha Hb.
  rewrite list_lookup_fmap in Ha, Hb.
  destruct (survivors parse_float t !! i) as [ra|] eqn:Hi; [|done].
  destruct (survivors parse_float t !! j) as [rb|] eqn:Hj; [|done].
  injection Ha as <-. injection Hb as <-.
  destruct (filter_lookup_order _ _ i j ra rb Hij Hi Hj)
    as (i' & j' & Hlt & Hi' & Hj' & _ & _).
  exists i', j', ra, rb. done.
Qed.

End PipelineFacts.

(* ===================================================================== *)
(** * The pipeline on the sample tables *)
(* ===================================================================== *)

(** C1.  The script means to keep every identifier as the string it is
    (it reads with [dtype=str] and says so in its comments), but it
    leaves the reader's default missing-value filter on, and so breaks
    the property on an identifier the reader takes for a missing value.
    Both records of [na_sample] have valid coordinates and survive;
    their identifier fields are ["NA"] and the empty string; the
    identifiers written are ["nan"] twice. *)
Lemma na_identifier_rewritten :
  survivors parse_decimal na_sample = records na_sample ∧
  (λ rec : gmap string string, rec !! "GEOID") <$> records na_sample
    = [Some "NA"; Some ""] ∧
  ∃ gdf, main parse_decimal no_repr na_sample = Ok gdf ∧
         fst <$> pairs gdf = [Str "nan"; Str "nan"].
Proof.
  split; [vm_compute; reflexivity|].
  split; [vm_compute; reflexivity|].
  eexists. split; vm_compute; reflexivity.
Qed.

Lemma identifier_preserved_witness :
  ∃ gdf, main parse_decimal no_repr gazetteer_sample = Ok gdf ∧
         fst <$> pairs gdf !! 0 = Some (Str "00501") ∧
         fst <$> pairs gdf !! 1 = Some (Str "00601").
Proof.
  destruct (main parse_decimal no_repr gazetteer_sample) as [gdf|] eqn:E;
    [|vm_compute in E; discriminate E].
  exists gdf. split; [reflexivity|].
  destruct (identifier_preserved parse_decimal no_repr gazetteer_sample gdf E)
    as (_ & Hid & _).
  split.
  - refine (Hid 0 _ "00501" _ _ _); vm_compute; reflexivity.
  - refine (Hid 1 _ "00601" _ _ _); vm_compute; reflexivity.
Defined.

Lemma malformed_rows_dropped_witness :
  ∃ gdf, main parse_decimal no_repr gazetteer_sample = Ok gdf ∧
         length (records gazetteer_sample) = 3 ∧
         length (pairs gdf) = 2 ∧
         pairs gdf !! 0
           = Some (Str "00501", Geom (Point (of_Z (-75)) (of_Z 40))).
Proof.
  destruct (malformed_rows_dropped parse_decimal no_repr gazetteer_sample)
    as (_ & _ & gdf & Hmain & Hlen & _ & Hkept).
  - apply (bool_decide_unpack _). vm_compute. exact I.
  - apply (bool_decide_unpack _). vm_compute. exact I.
  - apply (bool_decide_unpack _). vm_compute. exact I.
  - exists gdf. split; [exact Hmain|]. split; [reflexivity|].
    split; [rewrite Hlen; vm_compute; reflexivity|].
    destruct (Hkept 0 {[ "GEOID" := "00501"; "ALAND" := "65161";
                         "INTPTLAT" := "40.0"; "INTPTLONG" := "-75.0" ]})
      as (slat & slon & x & y & Hslat & Hy & Hslon & Hx & _ & _ & Hp);
      [vm_compute; reflexivity|].
    rewrite Hp.
    assert (slat = "40.0") as -> by (vm_compute in Hslat; congruence).
    assert (slon = "-75.0") as -> by (vm_compute in Hslon; congruence).
    assert (y = of_Z 40) as -> by (vm_compute in Hy; vm_compute; congruence).
    assert (x = of_Z (-75)) as ->
      by (vm_compute in Hx; vm_compute; congruence).
    vm_compute. reflexivity.
Defined.

Lemma point_lon_lat_witness :
  ∃ gdf g, main parse_decimal no_repr gazetteer_sample = Ok gdf ∧
           snd <$> pairs gdf !! 0 = Some (Geom g) ∧
           point_x g = of_Z (-75) ∧ point_y g = of_Z 40.
Proof.
  destruct (main parse_decimal no_repr gazetteer_sample) as [gdf|] eqn:E;
    [|vm_compute in E; discriminate E].
  destruct (point_lon_lat parse_decimal no_repr gazetteer_sample gdf E)
    as (_ & Hex).
  destruct (Hex ltac:(vm_compute; reflexivity) ltac:(vm_compute; reflexivity)
              0 {[ "GEOID" := "00501"; "ALAND" := "65161";
                   "INTPTLAT" := "40.0"; "INTPTLONG" := "-75.0" ]})
    as (g & Hg & Hx & Hy); try (vm_compute; reflexivity).
  exists gdf, g. split; [reflexivity|]. split; [exact Hg|]. by split.
Defined.

Lemma output_two_fields_witness :
  ∃ gdf, main parse_decimal no_repr gazetteer_sample = Ok gdf ∧
         columns (frame gdf) = ["ZIP"; "geometry"] ∧
         ∀ r, r ∈ rows (frame gdf) → r !! "ALAND" = None.
Proof.
  destruct (main parse_decimal no_repr gazetteer_sample) as [gdf|] eqn:E;
    [|vm_compute in E; discriminate E].
  destruct (output_two_fields parse_decimal no_repr gazetteer_sample gdf E)
    as (Hcols & Hrows).
  exists gdf. split; [reflexivity|]. split; [exact Hcols|].
  intros r Hr. destruct (Hrows r Hr) as (_ & _ & _ & Hnone).
  apply Hnone; discriminate.
Defined.

Lemma order_preserved_witness :
  ∃ gdf, main parse_decimal no_repr gazetteer_sample = Ok gdf ∧
         fst <$> pairs gdf = [Str "00501"; Str "00601"] ∧
         crs gdf = "EPSG:4326".
Proof.
  destruct (main parse_decimal no_repr gazetteer_sample) as [gdf|] eqn:E;
    [|vm_compute in E; discriminate E].
  destruct (order_preserved parse_decimal no_repr gazetteer_sample gdf E)
    as (Hcrs & Hpairs & _).
  exists gdf. split; [reflexivity|]. split; [|exact Hcrs].
  rewrite Hpairs. vm_compute. reflexivity.
Defined.


(* ===================================================================== *)
(** * Further properties of [compute_infiltration] *)
(* ===================================================================== *)

Lemma linspace_length start stop num F :
  linspace start stop num = Ok F → length F = Z.to_nat num.
Proof.
  unfold linspace. destruct (num <? 0)%Z; [done|]. intros [= <-].
  assert (H : ∀ g : float64 → float64,
            length ((λ yi, add yi start) <$> (g <$> (of_Z <$> seqZ 0 num)))
              = Z.to_nat num).
  { intros g. by rewrite !length_fmap, length_seqZ. }
  destruct (1 <? num)%Z; [rewrite length_insert|];
    destruct (0 <? num - 1)%Z; try destruct (eqb _ zero); apply H.
Qed.

Lemma linspace_last start stop num F :
  (2 ≤ num)%Z → linspace start stop num = Ok F →
  F !! (Z.to_nat num - 1) = Some stop.
Proof.
  intros Hn HF. pose proof (linspace_length _ _ _ _ HF) as Hlen.
  revert HF. unfold linspace. destruct (num <? 0)%Z eqn:E0; [done|].
  destruct (1 <? num)%Z eqn:E1; [|lia]. intros [= <-].
  rewrite length_insert in Hlen.
  replace (Z.to_nat num - 1) with (Z.to_nat (num - 1)) by lia.
  apply list_lookup_insert_eq. lia.
Qed.

Lemma linspace_ok_inv start stop num F :
  linspace start stop num = Ok F → (0 ≤ num)%Z.
Proof. unfold linspace. destruct (num <? 0)%Z eqn:E; [done | lia]. Qed.

Lemma linspace_negative start stop num :
  (num < 0)%Z → linspace start stop num = Raise ValueError.
Proof. intros H. unfold linspace. destruct (num <? 0)%Z eqn:E; [done|lia]. Qed.

(** X1.  The outcome of [compute_infiltration] is decided by three
    tests, in this order: it raises [ZeroDivisionError] exactly when [Ks]
    or the computed denominator [1 - rain_intensity / Ks] is zero
    (whatever [n_points] is); otherwise it raises [ValueError] exactly
    when [n_points] is negative; otherwise it returns.  It raises
    nothing else. *)
Theorem compute_infiltration_outcome Ks theta_s theta_i psi rain F_max n :
  let denominator := sub one (div rain Ks) in
  match compute_infiltration Ks theta_s theta_i psi rain F_max n with
  | Ok _ =>
      is_zero Ks = false ∧ is_zero denominator = false ∧ (0 ≤ n)%Z
  | Raise ZeroDivisionError =>
      is_zero Ks = true ∨ is_zero denominator = true
  | Raise ValueError =>
      is_zero Ks = false ∧ is_zero denominator = false ∧ (n < 0)%Z
  | Raise _ => False
  end.
Proof.
  intros denominator.
  unfold compute_infiltration, compute_infiltration_run.
  destruct (is_zero Ks) eqn:HKs.
  { rewrite (py_div_raise _ _ HKs). cbn. auto. }
  rewrite (py_div_ok _ _ HKs). cbn [mbind result_bind].
  fold denominator. destruct (is_zero denominator) eqn:Hden.
  { rewrite (py_div_raise _ _ Hden). cbn. auto. }
  rewrite (py_div_ok _ _ Hden). cbn [mbind result_bind].
  rewrite (py_div_ok _ _ HKs). cbn [mbind result_bind].
  destruct (Z.lt_ge_cases n 0) as [Hn|Hn].
  - rewrite (linspace_negative _ _ _ Hn). cbn. auto.
  - destruct (linspace_ok zero F_max n Hn) as [F ->]. cbn. auto.
Qed.

(** X2.  A run that returns has [n_points >= 0], and both arrays it
    returns, [F] and [f], have exactly [n_points] entries. *)
Theorem sample_arrays_length
    Ks theta_s theta_i psi rain F_max n F f F_p t_p :
  compute_infiltration Ks theta_s theta_i psi rain F_max n
    = Ok (F, f, F_p, t_p) →
  (0 ≤ n)%Z ∧ length F = Z.to_nat n ∧ length f = Z.to_nat n.
Proof.
  intros H. apply compute_infiltration_inv in H as [log H].
  apply compute_infiltration_run_inv in H as (_ & _ & _ & _ & HF & -> & _).
  split; [exact (linspace_ok_inv _ _ _ _ HF)|]. rewrite length_fmap.
  by rewrite (linspace_length _ _ _ _ HF).
Qed.

(** X3.  With at least two samples, the last sample of a run that
    returns is [F_max] itself (not a rounded multiple of the step), and
    the last rate is the rate of [F_max]. *)
Theorem last_sample_is_F_max
    Ks theta_s theta_i psi rain F_max n F f F_p t_p :
  (2 ≤ n)%Z →
  compute_infiltration Ks theta_s theta_i psi rain F_max n
    = Ok (F, f, F_p, t_p) →
  F !! (Z.to_nat n - 1) = Some F_max ∧
  f !! (Z.to_nat n - 1)
    = Some (sampled_rate Ks (sub theta_s theta_i) psi rain F_p F_max).
Proof.
  intros Hn H.
  apply compute_infiltration_inv in H as [log H].
  apply compute_infiltration_run_inv in H as (_ & _ & _ & _ & HF & -> & _).
  pose proof (linspace_last _ _ _ _ Hn HF) as Hlast.
  split; [exact Hlast|]. by rewrite list_lookup_fmap, Hlast.
Qed.

(** X4.  NaN is not rejected: where the comparison [Fi <= F_p] is
    unordered ([F_p] or the sample is NaN) the loop takes its second
    branch, so the stored rate is the Green-Ampt expression of the
    sample. *)
Theorem unordered_sample_takes_green_ampt
    Ks theta_s theta_i psi rain F_max n F f F_p t_p :
  compute_infiltration Ks theta_s theta_i psi rain F_max n
    = Ok (F, f, F_p, t_p) →
  ∀ idx Fi, F !! idx = Some Fi →
    is_nan F_p = true ∨ is_nan Fi = true →
    f !! idx = Some (green_ampt_rate Ks (sub theta_s theta_i) psi Fi).
Proof.
  intros H idx Fi HFi Hnan.
  apply compute_infiltration_inv in H as [log H].
  apply compute_infiltration_run_inv in H as (_ & _ & _ & _ & _ & -> & _).
  rewrite list_lookup_fmap, HFi. cbn [fmap option_fmap option_map].
  unfold sampled_rate.
  assert (Hle : leb Fi F_p = false).
  { destruct Hnan as [Hn|Hn].
    - destruct F_p; try discriminate Hn. destruct Fi; reflexivity.
    - destruct Fi; try discriminate Hn. reflexivity. }
  by rewrite Hle.
Qed.

(** X5.  When [F_p] is negative (as it is for [rain_intensity < Ks]
    with a negative [psi]), a sample equal to zero takes the second
    branch: the loop divides by it, and the rate stored there is an
    infinity or NaN. *)
Theorem negative_F_p_divides_by_zero
    Ks theta_s theta_i psi rain F_max n F f F_p t_p log :
  compute_infiltration_run Ks theta_s theta_i psi rain F_max n
    = Ok (F, f, F_p, t_p, log) →
  ltb F_p zero = true →
  ∀ idx Fi, F !! idx = Some Fi → is_zero Fi = true →
    Fi ∈ log ∧
    ∃ r, f !! idx = Some r ∧
         match r with
         | S754_infinity _ | S754_nan => True
         | _ => False
         end.
Proof.
  intros H HFp idx Fi HFi Hz.
  apply compute_infiltration_run_inv in H as (HKs & _ & _ & _ & _ & -> & ->).
  assert (Hle : leb Fi F_p = false).
  { destruct Fi; try discriminate Hz.
    apply (ltb_not_leb F_p zero) in HFp.
    destruct F_p; simpl in *; try done. }
  split.
  - apply list_elem_of_In, filter_In. split.
    + apply list_elem_of_In. eapply list_elem_of_lookup_2; eauto.
    + by rewrite Hle.
  - eexists. split.
    + rewrite list_lookup_fmap, HFi. cbn [fmap option_fmap option_map].
      unfold sampled_rate. rewrite Hle. reflexivity.
    + unfold green_ampt_rate.
      destruct Fi as [sz| | |]; try discriminate Hz.
      destruct (mul (sub theta_s theta_i) psi) as [sa|sa| |sa ma ea];
        destruct Ks as [sk|sk| |sk mk ek]; try discriminate HKs;
        try destruct sa; try destruct sz; simpl; exact I.
Qed.

Lemma sample_arrays_length_witness :
  ∃ F f F_p t_p,
    compute_infiltration Ks_hw theta_s_hw theta_i_hw psi_hw rain_hw
                         F_max_default 7 = Ok (F, f, F_p, t_p) ∧
    length F = 7 ∧ length f = 7.
Proof.
  destruct (compute_infiltration Ks_hw theta_s_hw theta_i_hw psi_hw rain_hw
              F_max_default 7)
    as [[[[F f] F_p] t_p]|] eqn:E; [|vm_compute in E; discriminate E].
  exists F, f, F_p, t_p. split; [reflexivity|].
  destruct (sample_arrays_length _ _ _ _ _ _ _ _ _ _ _ E) as (_ & HF & Hf).
  split; [exact HF | exact Hf].
Defined.

Lemma last_sample_is_F_max_witness :
  ∃ F f F_p t_p,
    compute_infiltration Ks_hw theta_s_hw theta_i_hw psi_hw rain_hw
                         (of_decimal 25 1) 7 = Ok (F, f, F_p, t_p) ∧
    F !! 6 = Some (of_decimal 25 1).
Proof.
  destruct (compute_infiltration Ks_hw theta_s_hw theta_i_hw psi_hw rain_hw
              (of_decimal 25 1) 7)
    as [[[[F f] F_p] t_p]|] eqn:E; [|vm_compute in E; discriminate E].
  exists F, f, F_p, t_p. split; [reflexivity|].
  destruct (last_sample_is_F_max _ _ _ _ _ _ 7%Z _ _ _ _ ltac:(lia) E)
    as [HF _].
  exact HF.
Defined.

Lemma unordered_sample_takes_green_ampt_witness :
  ∃ F f t_p,
    compute_infiltration Ks_hw theta_s_hw theta_i_hw nan rain_hw
                         F_max_default 3 = Ok (F, f, nan, t_p) ∧
    f !! 0 = Some nan ∧ f !! 2 = Some nan.
Proof.
  destruct (compute_infiltration Ks_hw theta_s_hw theta_i_hw nan rain_hw
              F_max_default 3)
    as [[[[F f] F_p] t_p]|] eqn:E; [|vm_compute in E; discriminate E].
  pose proof E as E'. apply compute_infiltration_inv in E' as [log E'].
  apply compute_infiltration_run_inv in E' as (_ & _ & HFp & _ & HF & _ & _).
  assert (HFp' : F_p = nan) by (rewrite HFp; vm_compute; reflexivity).
  subst F_p. exists F, f, t_p. split; [reflexivity|].
  assert (H0 : F !! 0 = Some zero).
  { assert (H : (λ l, l !! 0%nat) <$> linspace zero F_max_default 3
                = Ok (Some zero)) by (vm_compute; reflexivity).
    rewrite HF in H. by injection H. }
  assert (H2 : F !! 2 = Some F_max_default).
  { assert (H : (λ l, l !! 2%nat) <$> linspace zero F_max_default 3
                = Ok (Some F_max_default)) by (vm_compute; reflexivity).
    rewrite HF in H. by injection H. }
  split.
  - rewrite (unordered_sample_takes_green_ampt _ _ _ _ _ _ _ _ _ _ _ E
               0 zero H0 (or_introl eq_refl)).
    vm_compute. reflexivity.
  - rewrite (unordered_sample_takes_green_ampt _ _ _ _ _ _ _ _ _ _ _ E
               2 F_max_default H2 (or_introl eq_refl)).
    vm_compute. reflexivity.
Defined.

Lemma negative_F_p_divides_by_zero_witness :
  ∃ F f F_p t_p log,
    compute_infiltration_run Ks_hw theta_s_hw theta_i_hw psi_hw
      (of_decimal 25 2) F_max_default n_points_default
      = Ok (F, f, F_p, t_p, log) ∧
    ltb F_p zero = true ∧ F !! 0 = Some zero ∧ zero ∈ log.
Proof.
  destruct (compute_infiltration_run Ks_hw theta_s_hw theta_i_hw psi_hw
              (of_decimal 25 2) F_max_default n_points_default)
    as [[[[[F f] F_p] t_p] log]|] eqn:E; [|vm_compute in E; discriminate E].
  exists F, f, F_p, t_p, log. split; [reflexivity|].
  pose proof E as E'.
  apply compute_infiltration_run_inv in E' as (_ & _ & HFp & _ & HF & _ & _).
  assert (HFp' : ltb F_p zero = true) by (rewrite HFp; vm_compute; reflexivity).
  assert (H0 : F !! 0 = Some zero).
  { assert (H : (λ l, l !! 0%nat)
                  <$> linspace zero F_max_default n_points_default
                = Ok (Some zero)) by (vm_compute; reflexivity).
    rewrite HF in H. by injection H. }
  split; [exact HFp'|]. split; [exact H0|].
  apply (negative_F_p_divides_by_zero _ _ _ _ _ _ _ _ _ _ _ _ E HFp'
           0 zero H0 eq_refl).
Defined.

(* ===================================================================== *)
(** * Further properties of the centroid pipeline *)
(* ===================================================================== *)

Section PipelineMore.
Context (parse_float : string → option float64).
Context (repr_finite : float64 → string).

Local Abbreviation LAT := "INTPTLAT"%string.
Local Abbreviation LONG := "INTPTLONG"%string.

Lemma main_missing_geoid t :
  "GEOID" ∉ header t →
  main parse_float repr_finite t = Raise (KeyError "GEOID").
Proof.
  intros HG. unfold main, read_csv. by rewrite getitem_missing.
Qed.

Lemma main_missing_lat t :
  "GEOID" ∈ header t → LAT ∉ header t →
  main parse_float repr_finite t = Raise (KeyError LAT).
Proof.
  intros HG HLa. unfold main, read_csv.
  rewrite getitem_fmap by done. cbn [mbind result_bind].
  rewrite <- list_fmap_compose, setitem_fmap. cbn [mbind result_bind].
  rewrite getitem_missing; [done|].
  rewrite elem_of_add_col. intros [?|?]; done.
Qed.

Lemma main_missing_long t :
  "GEOID" ∈ header t → LAT ∈ header t → LONG ∉ header t →
  main parse_float repr_finite t = Raise (KeyError LONG).
Proof.
  intros HG HLa HLo. unfold main, read_csv.
  rewrite getitem_fmap by done. cbn [mbind result_bind].
  rewrite <- list_fmap_compose, setitem_fmap. cbn [mbind result_bind].
  rewrite getitem_fmap by (apply elem_of_add_col; auto).
  cbn [mbind result_bind].
  rewrite <- list_fmap_compose, setitem_fmap. cbn [mbind result_bind].
  rewrite getitem_missing; [done|].
  rewrite !elem_of_add_col. intros [?|[?|?]]; done.
Qed.

(** X7.  On a file the reader has cut into lines and fields, [main]
    reaches the end exactly when the header has the columns [GEOID],
    [INTPTLAT] and [INTPTLONG]; otherwise it raises [KeyError] for the
    first of them, in that order, that is missing.  From the parsed
    table on, no text of a field makes it raise. *)
Theorem main_outcome t :
  match main parse_float repr_finite t with
  | Ok gdf => "GEOID" ∈ header t ∧ LAT ∈ header t ∧ LONG ∈ header t
  | Raise (KeyError c) =>
      (c ∉ header t) ∧
      (c = "GEOID" ∨
       (c = LAT ∧ "GEOID" ∈ header t) ∨
       (c = LONG ∧ "GEOID" ∈ header t ∧ LAT ∈ header t))
  | Raise _ => False
  end.
Proof.
  destruct (decide ("GEOID" ∈ header t)) as [HG|HG];
    [|rewrite (main_missing_geoid t HG); auto].
  destruct (decide (LAT ∈ header t)) as [HLa|HLa];
    [|rewrite (main_missing_lat t HG HLa); auto].
  destruct (decide (LONG ∈ header t)) as [HLo|HLo];
    [|rewrite (main_missing_long t HG HLa HLo); auto 6].
  rewrite (main_spec parse_float repr_finite t HG HLa HLo). auto.
Qed.

Lemma coord_agree r1 r2 c :
  r1 !! c = r2 !! c → coord parse_float r1 c = coord parse_float r2 c.
Proof. unfold coord. by intros ->. Qed.

(** X8.  The written dataset depends on the columns [GEOID],
    [INTPTLAT] and [INTPTLONG] alone: two files whose lines agree on
    these three fields give the same result, whatever their other
    columns and the order of their header. *)
Theorem main_ignores_other_columns t1 t2 :
  "GEOID" ∈ header t1 → LAT ∈ header t1 → LONG ∈ header t1 →
  "GEOID" ∈ header t2 → LAT ∈ header t2 → LONG ∈ header t2 →
  Forall2 (λ r1 r2 : gmap string string,
             r1 !! "GEOID" = r2 !! "GEOID" ∧
             r1 !! LAT = r2 !! LAT ∧ r1 !! LONG = r2 !! LONG)
          (records t1) (records t2) →
  main parse_float repr_finite t1 = main parse_float repr_finite t2.
Proof.
  intros G1 A1 O1 G2 A2 O2 Hrec.
  rewrite (main_spec parse_float repr_finite t1 G1 A1 O1).
  rewrite (main_spec parse_float repr_finite t2 G2 A2 O2).
  do 3 f_equal. unfold survivors.
  induction Hrec as [|r1 r2 l1 l2 (Hg & Ha & Ho) _ IH]; [done|].
  assert (Hm : malformed parse_float r1 = malformed parse_float r2).
  { unfold malformed. by rewrite (coord_agree r1 r2 LAT Ha),
      (coord_agree r1 r2 LONG Ho). }
  cbn [List.filter]. rewrite Hm.
  destruct (malformed parse_float r2); cbn [negb]; [exact IH|].
  csimpl. rewrite IH. f_equal.
  unfold out_row, zip_of, centroid_of.
  by rewrite Hg, (coord_agree r1 r2 LAT Ha), (coord_agree r1 r2 LONG Ho).
Qed.

(** X9.  Lines are processed independently of one another: the
    dataset written for a file is the dataset of its first lines
    followed by the dataset of the remaining ones. *)
Theorem main_concat h r1 r2 gdf1 gdf2 :
  main parse_float repr_finite {| header := h; records := r1 |} = Ok gdf1 →
  main parse_float repr_finite {| header := h; records := r2 |} = Ok gdf2 →
  main parse_float repr_finite {| header := h; records := r1 ++ r2 |}
    = Ok {| frame := {| columns := columns (frame gdf1);
                        rows := rows (frame gdf1) ++ rows (frame gdf2) |};
            crs := crs gdf1 |}.
Proof.
  intros H1 H2.
  destruct (main_ok_inv parse_float repr_finite _ _ H1) as (HG & HLa & HLo).
  rewrite (main_inv parse_float repr_finite _ _ H1).
  rewrite (main_inv parse_float repr_finite _ _ H2).
  rewrite (main_spec parse_float repr_finite
             {| header := h; records := r1 ++ r2 |} HG HLa HLo).
  cbn [frame columns rows crs]. unfold survivors. cbn [records].
  by rewrite List.filter_app, fmap_app.
Qed.

(** X10.  A surviving record whose identifier field is absent or one
    of the reader's missing-value markers is written with the identifier
    ["nan"]. *)
Theorem missing_identifier_written_nan t gdf :
  main parse_float repr_finite t = Ok gdf →
  ∀ i rec, survivors parse_float t !! i = Some rec →
    (rec !! "GEOID" = None ∨
     ∃ s, rec !! "GEOID" = Some s ∧ is_na_marker s = true) →
    fst <$> pairs gdf !! i = Some (Str "nan").
Proof.
  intros H i rec Hi Hna.
  rewrite (main_inv parse_float repr_finite t gdf H), pairs_out_row.
  rewrite list_lookup_fmap, Hi. cbn. do 2 f_equal.
  unfold zip_of, read_field.
  destruct Hna as [->|(s & -> & ->)]; reflexivity.
Qed.

(** X11.  When every data line is malformed (in particular when
    there is none), [main] still reaches the end, and the frame handed
    to [to_file] has the two columns and no row. *)
Theorem all_malformed_empty_dataset t :
  "GEOID" ∈ header t → LAT ∈ header t → LONG ∈ header t →
  (∀ rec, rec ∈ records t → malformed parse_float rec = true) →
  main parse_float repr_finite t
    = Ok {| frame := {| columns := ["ZIP"; "geometry"]; rows := [] |};
            crs := "EPSG:4326" |}.
Proof.
  intros HG HLa HLo Hall.
  rewrite (main_spec parse_float repr_finite t HG HLa HLo).
  do 3 f_equal. unfold survivors.
  induction (records t) as [|rec l IH]; [done|].
  cbn [List.filter]. rewrite (Hall rec) by apply list_elem_of_here.
  cbn [negb]. apply IH. intros r Hr. by apply Hall, list_elem_of_further.
Qed.

End PipelineMore.

Lemma main_ignores_other_columns_witness :
  main parse_decimal no_repr gazetteer_sample
  = main parse_decimal no_repr
      {| header := ["INTPTLONG"; "INTPTLAT"; "GEOID"];
         records :=
           [ {[ "GEOID" := "00501"; "INTPTLAT" := "40.0";
                "INTPTLONG" := "-75.0" ]};
             {[ "GEOID" := "00544"; "INTPTLAT" := "";
                "INTPTLONG" := "-73.046388" ]};
             {[ "GEOID" := "00601"; "INTPTLAT" := "18.180555";
                "INTPTLONG" := "-66.749961" ]} ] |}.
Proof.
  apply main_ignores_other_columns;
    apply (bool_decide_unpack _); vm_compute; exact I.
Defined.

Lemma main_concat_witness :
  ∃ gdf1 gdf2,
    main parse_decimal no_repr
      {| header := header gazetteer_sample;
         records := take 1 (records gazetteer_sample) |} = Ok gdf1 ∧
    main parse_decimal no_repr
      {| header := header gazetteer_sample;
         records := drop 1 (records gazetteer_sample) |} = Ok gdf2 ∧
    main parse_decimal no_repr
      {| header := header gazetteer_sample;
         records := take 1 (records gazetteer_sample)
                    ++ drop 1 (records gazetteer_sample) |}
      = Ok {| frame := {| columns := columns (frame gdf1);
                          rows := rows (frame gdf1) ++ rows (frame gdf2) |};
              crs := crs gdf1 |}.
Proof.
  destruct (main parse_decimal no_repr
              {| header := header gazetteer_sample;
                 records := take 1 (records gazetteer_sample) |})
    as [gdf1|] eqn:E1; [|vm_compute in E1; discriminate E1].
  destruct (main parse_decimal no_repr
              {| header := header gazetteer_sample;
                 records := drop 1 (records gazetteer_sample) |})
    as [gdf2|] eqn:E2; [|vm_compute in E2; discriminate E2].
  exists gdf1, gdf2. split; [reflexivity|]. split; [reflexivity|].
  exact (main_concat parse_decimal no_repr _ _ _ gdf1 gdf2 E1 E2).
Defined.

Lemma missing_identifier_written_nan_witness :
  ∃ gdf, main parse_decimal no_repr na_sample = Ok gdf ∧
         fst <$> pairs gdf !! 0 = Some (Str "nan").
Proof.
  destruct (main parse_decimal no_repr na_sample) as [gdf|] eqn:E;
    [|vm_compute in E; discriminate E].
  exists gdf. split; [reflexivity|].
  refine (missing_identifier_written_nan parse_decimal no_repr na_sample gdf E
            0 _ _ (or_intror (ex_intro _ "NA" (conj _ _))));
    vm_compute; reflexivity.
Defined.

Lemma all_malformed_empty_dataset_witness :
  main parse_decimal no_repr
    {| header := ["GEOID"; "INTPTLAT"; "INTPTLONG"];
       records := [ {[ "GEOID" := "00501"; "INTPTLAT" := "north";
                       "INTPTLONG" := "-75.0" ]} ] |}
  = Ok {| frame := {| columns := ["ZIP"; "geometry"]; rows := [] |};
          crs := "EPSG:4326" |}.
Proof.
  apply all_malformed_empty_dataset;
    try (apply (bool_decide_unpack _); vm_compute; exact I).
  intros rec Hrec. apply list_elem_of_singleton in Hrec as ->.
  vm_compute. reflexivity.
Defined.
